(** * load_csv_to_pg: sanitizers and the loading run

    A shallow embedding of [load_csv_to_pg.py].  Python strings are
    sequences of Unicode code points, so a character is a code point
    ([N]) and a string a list of them; string literals of the source are
    written with [lit].  The pure functions ([sanitize_column],
    [sanitize_identifier]) are Rocq functions; [main] runs in a small
    error-and-trace monad over the file system and the database. *)

From Stdlib Require Import List NArith ZArith Bool Ascii String Lia.
Import ListNotations.

Local Open Scope N_scope.
Local Open Scope list_scope.

(* ================================================================= *)
(** ** Python strings *)

Definition char : Type := N.
Definition str : Type := list char.

(** A literal of the source (ASCII only) as a Python string. *)
Definition lit (s : string) : str := map N_of_ascii (list_ascii_of_string s).

Definition in_range (lo hi c : char) : bool := (lo <=? c) && (c <=? hi).

(** [str.isspace] on one character: the code points CPython's
    [_PyUnicode_IsWhitespace] accepts. *)
Definition isspace (c : char) : bool :=
  in_range 9 13 c || in_range 28 32 c || (c =? 133) || (c =? 160)
  || (c =? 5760) || in_range 8192 8202 c || (c =? 8232) || (c =? 8233)
  || (c =? 8239) || (c =? 8287) || (c =? 12288).

Fixpoint lstrip (s : str) : str :=
  match s with
  | [] => []
  | c :: rest => if isspace c then lstrip rest else s
  end.

Definition rstrip (s : str) : str := rev (lstrip (rev s)).

(** [s.strip()]: leading and trailing whitespace removed. *)
Definition strip (s : str) : str := rstrip (lstrip s).

(* ================================================================= *)
(** ** The two regular expressions *)

Definition is_digit (c : char) : bool := in_range 48 57 c.
Definition is_upper (c : char) : bool := in_range 65 90 c.
Definition is_lower (c : char) : bool := in_range 97 122 c.
Definition underscore : char := 95.

(** The character class [[0-9A-Za-z_]]. *)
Definition word_char (c : char) : bool :=
  is_digit c || is_upper c || is_lower c || (c =? underscore).

(** [re.sub(r"[^0-9A-Za-z_]", "_", s)]: the pattern matches exactly one
    character at a time, so the substitution is a map over the string. *)
Definition sub_char (c : char) : char := if word_char c then c else underscore.
Definition re_sub_non_word (s : str) : str := map sub_char s.

(** [re.match(r"^[0-9]", s)] as a truth value. *)
Definition re_match_leading_digit (s : str) : bool :=
  match s with
  | [] => false
  | c :: _ => is_digit c
  end.

(** [not s] for a string. *)
Definition is_empty (s : str) : bool :=
  match s with [] => true | _ :: _ => false end.

(* ================================================================= *)
(** ** Exceptions and results *)

Inductive exn : Type :=
| ValueError (msg : str)
| FileNotFoundError
| StopIteration
| IndexError
| SystemExit (code : Z)
| OtherError (cls : str).   (* raised by the environment: OSError,
                               UnicodeDecodeError, csv.Error, psycopg2.Error *)

Inductive result (A : Type) : Type :=
| Ok (a : A)
| Raise (e : exn).
Arguments Ok {A} a.
Arguments Raise {A} e.

(* ================================================================= *)
(** ** sanitize_column, sanitize_identifier *)

Definition sanitize_column (name : str) : str :=
  let s := re_sub_non_word (strip name) in
  let s := if is_empty s then lit "col" else s in
  let s := if re_match_leading_digit s then lit "c_" ++ s else s in
  s.

Definition sanitize_identifier (name : str) : result str :=
  let s := re_sub_non_word (strip name) in
  if is_empty s then Raise (ValueError (lit "Invalid identifier"))
  else Ok s.

(* ================================================================= *)
(** ** psycopg2.sql: composable SQL fragments *)

#[warnings="-register-all"]
Inductive composable : Type :=
| SQL (text : str)
| Identifier (name : str)
| Placeholder
| Composed (parts : list composable).

Definition dquote : char := 34.
Definition lbrace : char := 123.
Definition rbrace : char := 125.

(** [quote_ident]: the name between double quotes, embedded double
    quotes doubled. *)
Definition quote_ident (name : str) : str :=
  dquote :: flat_map (fun c => if c =? dquote then [dquote; dquote] else [c]) name
         ++ [dquote].

(** [Composable.as_string]: the SQL text sent to the server. *)
Fixpoint as_string (c : composable) : str :=
  match c with
  | SQL text => text
  | Identifier name => quote_ident name
  | Placeholder => lit "%s"
  | Composed parts => flat_map as_string parts
  end.

(** [SQL.join]: the items of [seq] with [sep] between them. *)
Definition join (sep : composable) (seq : list composable) : composable :=
  Composed match seq with
           | [] => []
           | first :: others => first :: flat_map (fun i => [sep; i]) others
           end.

(** [Composable.__mul__]. *)
Definition mul (c : composable) (n : nat) : composable := Composed (repeat c n).

(** [iter(c)]: the fragments of a [Composed]; the other fragments are
    not iterable and the program iterates over none of them. *)
Definition iter (c : composable) : list composable :=
  match c with
  | Composed parts => parts
  | SQL _ | Identifier _ | Placeholder => []
  end.

Definition flush (pre : str) : list composable :=
  if is_empty pre then [] else [SQL pre].

(** The loop of [SQL.format] over the parsed template: literal text
    becomes an [SQL] fragment and each auto-numbered field [{}] takes the
    next argument.  The templates of this program contain nothing else;
    a brace that does not belong to [{}] is rejected. *)
Fixpoint format_parts (template pre : str) (args : list composable)
  : result (list composable) :=
  match template with
  | [] => Ok (flush pre)
  | c :: rest =>
      if c =? lbrace then
        match rest with
        | c' :: rest' =>
            if c' =? rbrace then
              match args with
              | [] => Raise IndexError
              | arg :: args' =>
                  match format_parts rest' [] args' with
                  | Ok rv => Ok (flush pre ++ arg :: rv)
                  | Raise e => Raise e
                  end
              end
            else Raise (ValueError (lit "unsupported replacement field"))
        | [] => Raise (ValueError (lit "Single '{' encountered in format string"))
        end
      else if c =? rbrace then
        Raise (ValueError (lit "Single '}' encountered in format string"))
      else format_parts rest (pre ++ [c]) args
  end.

Definition format (template : str) (args : list composable) : result composable :=
  match format_parts template [] args with
  | Ok rv => Ok (Composed rv)
  | Raise e => Raise e
  end.


(** The literal [SQL] fragments of a statement, left to right. *)
Fixpoint sql_texts (c : composable) : list str :=
  match c with
  | SQL text => [text]
  | Composed parts => flat_map sql_texts parts
  | Identifier _ | Placeholder => []
  end.

(* ================================================================= *)
(** ** The outside world: CSV files and the database *)

(** What [csv.reader] yields over an opened file: its records, then
    [StopIteration] ([ending = None]) or the exception that interrupts
    the reading. *)
Record reader : Type := { records : list (list str); ending : option exn }.

(** The observable actions of a run, each with the answer it got. *)
Inductive event : Type :=
| EvOpen (path : str) (newline : option str) (r : result reader)
| EvConnect (host : str) (port : Z) (dbname user password : str) (err : option exn)
| EvExecute (query : composable) (vars : option (list str)) (err : option exn)
| EvCommit (err : option exn)
| EvClose
| EvStdout (text : str)
| EvStderr (text : str).

(** The environment answers each request from what happened so far. *)
Record env : Type := {
  fs_open : list event -> str -> option str -> result reader;
  db_connect : list event -> str -> Z -> str -> str -> str -> option exn;
  db_execute : list event -> composable -> option (list str) -> option exn;
  db_commit : list event -> option exn
}.

(** Computations: the environment and the trace so far give a value or
    an exception, and the extended trace. *)
Definition M (A : Type) : Type := env -> list event -> result A * list event.

Definition ret {A} (a : A) : M A := fun _ t => (Ok a, t).
Definition raise {A} (e : exn) : M A := fun _ t => (Raise e, t).
Definition bind {A B} (m : M A) (k : A -> M B) : M B :=
  fun w t => match m w t with
             | (Ok a, t') => k a w t'
             | (Raise e, t') => (Raise e, t')
             end.

Declare Scope py_scope.
Delimit Scope py_scope with py.
Notation "x <- m ;; k" := (bind m (fun x => k))
  (at level 100, m at next level, right associativity) : py_scope.
Notation "m ;; k" := (bind m (fun _ => k))
  (at level 100, right associativity) : py_scope.
Local Open Scope py_scope.

Definition lift {A} (r : result A) : M A := fun _ t => (r, t).
Definition emit (ev : event) : M unit := fun _ t => (Ok tt, t ++ [ev]).

Definition of_err (err : option exn) : result unit :=
  match err with None => Ok tt | Some e => Raise e end.

(** [try: body except <class>: handler]. *)
Definition try_except {A} (body : M A) (catches : exn -> bool) (handler : M A) : M A :=
  fun w t => match body w t with
             | (Raise e, t') => if catches e then handler w t' else (Raise e, t')
             | ok => ok
             end.

(** [try: body finally: cleanup]. *)
Definition try_finally {A} (body : M A) (cleanup : M unit) : M A :=
  fun w t => match body w t with
             | (r, t') => match cleanup w t' with
                          | (Ok _, t'') => (r, t'')
                          | (Raise e, t'') => (Raise e, t'')
                          end
             end.

Definition is_StopIteration (e : exn) : bool :=
  match e with StopIteration => true | _ => false end.
Definition is_FileNotFoundError (e : exn) : bool :=
  match e with FileNotFoundError => true | _ => false end.

(** [open(path, newline=..., encoding='utf-8-sig')] followed by
    [csv.reader(f, dialect='unix', quoting=csv.QUOTE_MINIMAL)]. *)
Definition open_csv (path : str) (newline : option str) : M reader :=
  fun w t => let r := fs_open w t path newline in (r, t ++ [EvOpen path newline r]).

(** [next(reader)]. *)
Definition next (r : reader) : M (list str * reader) :=
  match records r with
  | record :: rest => ret (record, {| records := rest; ending := ending r |})
  | [] => raise match ending r with None => StopIteration | Some e => e end
  end.

(** [for row in reader: body], threading the local variables [s] the
    body updates.  The loop ends when [next] raises [StopIteration]. *)
Fixpoint for_in {S} (rows : list (list str)) (ending : option exn)
         (body : list str -> S -> M S) (s : S) : M S :=
  match rows with
  | row :: rest => s' <- body row s ;; for_in rest ending body s'
  | [] => match ending with
          | None | Some StopIteration => ret s
          | Some e => raise e
          end
  end.

Definition connect (host : str) (port : Z) (dbname user password : str) : M unit :=
  fun w t => let err := db_connect w t host port dbname user password in
             (of_err err, t ++ [EvConnect host port dbname user password err]).

Definition execute (query : composable) (vars : option (list str)) : M unit :=
  fun w t => let err := db_execute w t query vars in
             (of_err err, t ++ [EvExecute query vars err]).

Definition commit : M unit :=
  fun w t => let err := db_commit w t in (of_err err, t ++ [EvCommit err]).

Definition close : M unit := emit EvClose.

Definition print_stdout (text : str) : M unit := emit (EvStdout text).
Definition print_stderr (text : str) : M unit := emit (EvStderr text).
Definition sys_exit {A} (code : Z) : M A := raise (SystemExit code).

(** [str(n)] for a non-negative integer. *)
Fixpoint digits (d : Decimal.uint) : str :=
  match d with
  | Decimal.Nil => []
  | Decimal.D0 d => 48 :: digits d
  | Decimal.D1 d => 49 :: digits d
  | Decimal.D2 d => 50 :: digits d
  | Decimal.D3 d => 51 :: digits d
  | Decimal.D4 d => 52 :: digits d
  | Decimal.D5 d => 53 :: digits d
  | Decimal.D6 d => 54 :: digits d
  | Decimal.D7 d => 55 :: digits d
  | Decimal.D8 d => 56 :: digits d
  | Decimal.D9 d => 57 :: digits d
  end.
Definition str_of_nat (n : nat) : str := digits (Nat.to_uint n).

(* ================================================================= *)
(** ** main *)

(** The parsed command line ([args = p.parse_args()]). *)
Record args : Type := {
  host : str; port : Z; dbname : str; user : str; password : str;
  csv : str; schema : str; table : str
}.

(** A comprehension [f(x) for x in xs] whose items may raise. *)
Fixpoint map_result {A B} (f : A -> result B) (xs : list A) : result (list B) :=
  match xs with
  | [] => Ok []
  | x :: rest =>
      match f x with
      | Raise e => Raise e
      | Ok y => match map_result f rest with
                | Raise e => Raise e
                | Ok ys => Ok (y :: ys)
                end
      end
  end.

(** Lines 69-72: the column definitions and the CREATE TABLE statement. *)
Definition col_defs (columns : list str) : result composable :=
  match map_result (fun c => format (lit "{} text") [Identifier c]) columns with
  | Raise e => Raise e
  | Ok defs => Ok (join (SQL (lit ", ")) defs)
  end.

Definition create_sql (schema table : str) (columns : list str) : result composable :=
  match col_defs columns with
  | Raise e => Raise e
  | Ok col_defs =>
      format (lit "CREATE TABLE IF NOT EXISTS {}.{} ({})")
        [Identifier schema; Identifier table; col_defs]
  end.

(** Lines 81-87: the insert statement, built once before the loop. *)
Definition insert_template (schema table : str) (columns : list str) : result composable :=
  let col_identifiers := map Identifier columns in
  format (lit "INSERT INTO {}.{} ({}) VALUES ({})")
    [Identifier schema; Identifier table;
     join (SQL (lit ", ")) col_identifiers;
     join (SQL (lit ", ")) (iter (mul Placeholder (List.length columns)))].

(** The line printed on success. *)
Definition loaded_message (row_count : nat) (csv_path schema table : str) : str :=
  lit "Loaded " ++ str_of_nat row_count ++ lit " rows from CSV '" ++ csv_path
  ++ lit "' into " ++ schema ++ lit "." ++ table.

(** [main], from line 46 on.  The [with] blocks of the two files and of
    the cursor release their resource and let every exception through,
    so they leave no event of their own; statements go to the one
    connection the run opens. *)
Definition main (args : args) : M unit :=
  let csv_path := csv args in
  schema <- lift (sanitize_identifier (schema args)) ;;
  table <- lift (sanitize_identifier (table args)) ;;
  header <-
    try_except
      (reader <- open_csv csv_path (Some []) ;;
       try_except
         (hr <- next reader ;; ret (fst hr))
         is_StopIteration
         (print_stderr (lit "CSV file is empty") ;; sys_exit 1))
      is_FileNotFoundError
      (print_stderr (lit "CSV file not found: " ++ csv_path) ;; sys_exit 1) ;;
  let columns := map sanitize_column header in
  connect (host args) (port args) (dbname args) (user args) (password args) ;;
  try_finally
    (row_count <-
       (create_sql <- lift (create_sql schema table columns) ;;
        execute create_sql None ;;
        let row_count := 0%nat in
        reader <- open_csv csv_path None ;;
        hr <- next reader ;;
        let reader := snd hr in
        insert_template <- lift (insert_template schema table columns) ;;
        for_in (records reader) (ending reader)
          (fun row row_count => execute insert_template (Some row) ;; ret (S row_count))
          row_count) ;;
     commit ;;
     print_stdout (loaded_message row_count csv_path schema table))
    close.

(** A run of the program from an empty trace. *)
Definition run (w : env) (a : args) : result unit * list event := main a w [].

Definition outcome (w : env) (a : args) : result unit := fst (run w a).
Definition trace (w : env) (a : args) : list event := snd (run w a).

(** The exit status the interpreter gives the process: the argument of
    [sys.exit], 1 for an exception that reaches the top level, else 0. *)
Definition exit_code (r : result unit) : Z :=
  match r with
  | Ok _ => 0
  | Raise (SystemExit code) => code
  | Raise _ => 1
  end.

(** [sep.join(items)] on strings, for stating what a statement reads. *)
Fixpoint str_join (sep : str) (items : list str) : str :=
  match items with
  | [] => []
  | [item] => item
  | item :: rest => item ++ sep ++ str_join sep rest
  end.

(* ================================================================= *)
(** ** The paths through main

    The traces a run can leave, path by path; [main_runs] below proves
    that every run of [main] is one of them. *)

Definition ended (o : option exn) : exn :=
  match o with None => StopIteration | Some e => e end.

Definition inserted (ins : composable) (row : list str) : event :=
  EvExecute ins (Some row) None.

(** From the first statement to the end of the [try] block. *)
Inductive session_run (cs ins : composable) (path : str) (msg : nat -> str)
  : result unit -> list event -> Prop :=
| S_create_fails e :
    session_run cs ins path msg (Raise e) [EvExecute cs None (Some e)]
| S_reopen_fails e :
    session_run cs ins path msg (Raise e)
      [EvExecute cs None None; EvOpen path None (Raise e)]
| S_no_header rd :
    records rd = [] ->
    session_run cs ins path msg (Raise (ended (ending rd)))
      [EvExecute cs None None; EvOpen path None (Ok rd)]
| S_insert_fails rd h2 done row rest e :
    records rd = h2 :: done ++ row :: rest ->
    session_run cs ins path msg (Raise e)
      ([EvExecute cs None None; EvOpen path None (Ok rd)]
         ++ map (inserted ins) done ++ [EvExecute ins (Some row) (Some e)])
| S_read_fails rd h2 rows e :
    records rd = h2 :: rows -> ending rd = Some e -> e <> StopIteration ->
    session_run cs ins path msg (Raise e)
      ([EvExecute cs None None; EvOpen path None (Ok rd)] ++ map (inserted ins) rows)
| S_commit_fails rd h2 rows e :
    records rd = h2 :: rows -> ended (ending rd) = StopIteration ->
    session_run cs ins path msg (Raise e)
      ([EvExecute cs None None; EvOpen path None (Ok rd)]
         ++ map (inserted ins) rows ++ [EvCommit (Some e)])
| S_success rd h2 rows :
    records rd = h2 :: rows -> ended (ending rd) = StopIteration ->
    session_run cs ins path msg (Ok tt)
      ([EvExecute cs None None; EvOpen path None (Ok rd)]
         ++ map (inserted ins) rows
         ++ [EvCommit None; EvStdout (msg (List.length rows))]).

Inductive main_run (a : args) : result unit -> list event -> Prop :=
| R_bad_schema e :
    sanitize_identifier (schema a) = Raise e ->
    main_run a (Raise e) []
| R_bad_table s e :
    sanitize_identifier (schema a) = Ok s ->
    sanitize_identifier (table a) = Raise e ->
    main_run a (Raise e) []
| R_not_found s t :
    sanitize_identifier (schema a) = Ok s ->
    sanitize_identifier (table a) = Ok t ->
    main_run a (Raise (SystemExit 1))
      [EvOpen (csv a) (Some []) (Raise FileNotFoundError);
       EvStderr (lit "CSV file not found: " ++ csv a)]
| R_open_fails s t e :
    sanitize_identifier (schema a) = Ok s ->
    sanitize_identifier (table a) = Ok t ->
    e <> FileNotFoundError ->
    main_run a (Raise e) [EvOpen (csv a) (Some []) (Raise e)]
| R_empty s t rd :
    sanitize_identifier (schema a) = Ok s ->
    sanitize_identifier (table a) = Ok t ->
    records rd = [] -> ended (ending rd) = StopIteration ->
    main_run a (Raise (SystemExit 1))
      [EvOpen (csv a) (Some []) (Ok rd); EvStderr (lit "CSV file is empty")]
| R_header_not_found s t rd :
    sanitize_identifier (schema a) = Ok s ->
    sanitize_identifier (table a) = Ok t ->
    records rd = [] -> ending rd = Some FileNotFoundError ->
    main_run a (Raise (SystemExit 1))
      [EvOpen (csv a) (Some []) (Ok rd);
       EvStderr (lit "CSV file not found: " ++ csv a)]
| R_header_fails s t rd e :
    sanitize_identifier (schema a) = Ok s ->
    sanitize_identifier (table a) = Ok t ->
    records rd = [] -> ending rd = Some e ->
    e <> StopIteration -> e <> FileNotFoundError ->
    main_run a (Raise e) [EvOpen (csv a) (Some []) (Ok rd)]
| R_connect_fails s t rd h rest e :
    sanitize_identifier (schema a) = Ok s ->
    sanitize_identifier (table a) = Ok t ->
    records rd = h :: rest ->
    main_run a (Raise e)
      [EvOpen (csv a) (Some []) (Ok rd);
       EvConnect (host a) (port a) (dbname a) (user a) (password a) (Some e)]
| R_session s t rd h rest cs ins r body :
    sanitize_identifier (schema a) = Ok s ->
    sanitize_identifier (table a) = Ok t ->
    records rd = h :: rest ->
    create_sql s t (map sanitize_column h) = Ok cs ->
    insert_template s t (map sanitize_column h) = Ok ins ->
    session_run cs ins (csv a) (fun n => loaded_message n (csv a) s t) r body ->
    main_run a r
      ([EvOpen (csv a) (Some []) (Ok rd);
        EvConnect (host a) (port a) (dbname a) (user a) (password a) None]
         ++ body ++ [EvClose]).

(** The body of the insert loop (lines 90-91). *)
Definition insert_body (ins : composable) (row : list str) (row_count : nat) : M nat :=
  execute ins (Some row) ;; ret (S row_count).

(* ================================================================= *)
(** ** Sample runs *)

(** The command line of the usage example. *)
Definition permits_args : args :=
  {| host := lit "localhost"; port := 5432%Z; dbname := lit "mydb";
     user := lit "myuser"; password := lit "secret";
     csv := lit "permits.csv"; schema := lit "public"; table := lit "permits" |}.

(** The same with a schema name that is blank. *)
Definition blank_schema_args : args :=
  {| host := lit "localhost"; port := 5432%Z; dbname := lit "mydb";
     user := lit "myuser"; password := lit "secret";
     csv := lit "permits.csv"; schema := lit "  "; table := lit "permits" |}.

Definition permits_header : list str :=
  [lit "Permit #"; lit "2nd Street"; lit "notes"].

Definition permits_rows : list (list str) :=
  [[lit "17"; lit "Elm"; lit "ok"]; [lit "18"; lit "Oak"; lit "late"]].

(** A file system that holds [permits.csv] and a database that accepts
    every request. *)
Definition permits_world : env :=
  {| fs_open := fun _ _ _ =>
       Ok {| records := permits_header :: permits_rows; ending := None |};
     db_connect := fun _ _ _ _ _ _ => None;
     db_execute := fun _ _ _ => None;
     db_commit := fun _ => None |}.

(** A file system without the CSV file. *)
Definition missing_file_world : env :=
  {| fs_open := fun _ _ _ => Raise FileNotFoundError;
     db_connect := fun _ _ _ _ _ _ => None;
     db_execute := fun _ _ _ => None;
     db_commit := fun _ => None |}.

(** A file system in which the CSV file is empty. *)
Definition empty_file_world : env :=
  {| fs_open := fun _ _ _ => Ok {| records := []; ending := None |};
     db_connect := fun _ _ _ _ _ _ => None;
     db_execute := fun _ _ _ => None;
     db_commit := fun _ => None |}.

(** What follows a commit in a trace. *)
Definition after_commit (msg : nat -> str) (rows : list (list str)) (err : option exn)
  : list event :=
  match err with
  | None => [EvStdout (msg (List.length rows))]
  | Some _ => []
  end.

(* ================================================================= *)
(** ** Reading a trace *)

(** The rows a trace sent with the insert statement, in order. *)
Fixpoint submitted_rows (t : list event) : list (list str) :=
  match t with
  | [] => []
  | EvExecute _ (Some row) _ :: rest => row :: submitted_rows rest
  | _ :: rest => submitted_rows rest
  end.

(** More sample worlds: a database that refuses the connection, a CSV
    file that is gone, or left without a record, when it is opened
    again, and a database that rejects the second insert. *)
Definition unreachable_db_world : env :=
  {| fs_open := fun _ _ _ =>
       Ok {| records := permits_header :: permits_rows; ending := None |};
     db_connect := fun _ _ _ _ _ _ => Some (OtherError (lit "OperationalError"));
     db_execute := fun _ _ _ => None;
     db_commit := fun _ => None |}.

Definition vanishing_file_world : env :=
  {| fs_open := fun _ _ newline =>
       match newline with
       | Some _ => Ok {| records := permits_header :: permits_rows; ending := None |}
       | None => Raise FileNotFoundError
       end;
     db_connect := fun _ _ _ _ _ _ => None;
     db_execute := fun _ _ _ => None;
     db_commit := fun _ => None |}.

Definition truncated_file_world : env :=
  {| fs_open := fun _ _ newline =>
       match newline with
       | Some _ => Ok {| records := permits_header :: permits_rows; ending := None |}
       | None => Ok {| records := []; ending := None |}
       end;
     db_connect := fun _ _ _ _ _ _ => None;
     db_execute := fun _ _ _ => None;
     db_commit := fun _ => None |}.

Definition rejecting_db_world : env :=
  {| fs_open := fun _ _ _ =>
       Ok {| records := permits_header :: permits_rows; ending := None |};
     db_connect := fun _ _ _ _ _ _ => None;
     db_execute := fun hist _ _ =>
       if Nat.ltb 4 (List.length hist) then Some (OtherError (lit "DataError")) else None;
     db_commit := fun _ => None |}.

(** A CSV file the process may not read. *)
Definition unreadable_file_world : env :=
  {| fs_open := fun _ _ _ => Raise (OtherError (lit "PermissionError"));
     db_connect := fun _ _ _ _ _ _ => None;
     db_execute := fun _ _ _ => None;
     db_commit := fun _ => None |}.

(* ================================================================= *)
(** ** Characters and the sanitizers *)

Section Sanitizers.

Lemma word_char_sub_char (c : char) : word_char (sub_char c) = true.
Proof.
  unfold sub_char. destruct (word_char c) eqn:E; [exact E | reflexivity].
Qed.

Lemma sub_char_word (c : char) : word_char c = true -> sub_char c = c.
Proof. unfold sub_char. intros ->. reflexivity. Qed.

Lemma re_sub_non_word_class (s : str) : forallb word_char (re_sub_non_word s) = true.
Proof.
  induction s as [|c s IH]; simpl; [reflexivity|].
  now rewrite word_char_sub_char.
Qed.

Lemma re_sub_non_word_fixed (s : str) :
  forallb word_char s = true -> re_sub_non_word s = s.
Proof.
  induction s as [|c s IH]; simpl; [reflexivity|].
  intros H. apply andb_prop in H as [Hc Hs].
  now rewrite (sub_char_word c Hc), (IH Hs).
Qed.

Lemma re_sub_non_word_length (s : str) : List.length (re_sub_non_word s) = List.length s.
Proof. apply length_map. Qed.

Lemma word_char_not_space (c : char) : word_char c = true -> isspace c = false.
Proof.
  unfold word_char, isspace, is_digit, is_upper, is_lower, in_range, underscore.
  intros H.
  repeat (apply orb_prop in H as [H|H]);
    repeat (apply andb_prop in H as [? ?]);
    repeat match goal with
           | H : (_ <=? _) = true |- _ => apply N.leb_le in H
           | H : (_ =? _) = true |- _ => apply N.eqb_eq in H
           end;
    repeat (apply orb_false_intro);
    try (apply andb_false_iff; rewrite !N.leb_gt; lia);
    try (apply N.eqb_neq; lia).
Qed.

Lemma lstrip_word (s : str) : forallb word_char s = true -> lstrip s = s.
Proof.
  destruct s as [|c s]; simpl; [reflexivity|].
  intros H. apply andb_prop in H as [Hc _].
  now rewrite (word_char_not_space c Hc).
Qed.

Lemma forallb_rev {A} (f : A -> bool) (l : list A) :
  forallb f l = true -> forallb f (List.rev l) = true.
Proof.
  rewrite !forallb_forall. intros H x Hx. apply H. now apply in_rev.
Qed.

Lemma strip_word (s : str) : forallb word_char s = true -> strip s = s.
Proof.
  intros H. unfold strip, rstrip.
  rewrite (lstrip_word s H), (lstrip_word _ (forallb_rev _ _ H)).
  apply rev_involutive.
Qed.

(** A string that is already a column name is left alone. *)
Lemma sanitize_column_fixed (s : str) :
  forallb word_char s = true -> s <> [] -> re_match_leading_digit s = false ->
  sanitize_column s = s.
Proof.
  intros Hw Hne Hd. unfold sanitize_column.
  rewrite (strip_word s Hw), (re_sub_non_word_fixed s Hw).
  destruct s as [|c s]; [contradiction|]. simpl is_empty. cbv iota.
  now rewrite Hd.
Qed.

Lemma sanitize_column_props (name : str) :
  forallb word_char (sanitize_column name) = true
  /\ sanitize_column name <> []
  /\ re_match_leading_digit (sanitize_column name) = false.
Proof.
  unfold sanitize_column.
  pose proof (re_sub_non_word_class (strip name)) as Hw.
  destruct (re_sub_non_word (strip name)) as [|c s] eqn:E.
  - vm_compute. repeat split; [discriminate].
  - simpl is_empty. cbv iota.
    destruct (re_match_leading_digit (c :: s)) eqn:D.
    + change (lit "c_" ++ c :: s) with (99 :: 95 :: c :: s).
      repeat split; [|discriminate].
      change (forallb word_char (99 :: 95 :: c :: s))
        with (forallb word_char (c :: s)).
      exact Hw.
    + repeat split; [exact Hw | discriminate | exact D].
Qed.

End Sanitizers.

(* ================================================================= *)
(** ** The statements main builds *)

Section Statements.

Lemma column_defs_built (columns : list str) :
  map_result (fun c => format (lit "{} text") [Identifier c]) columns
  = Ok (map (fun c => Composed [Identifier c; SQL (lit " text")]) columns).
Proof.
  induction columns as [|c columns IH]; simpl; [reflexivity|].
  rewrite IH. reflexivity.
Qed.

Lemma col_defs_built (columns : list str) :
  col_defs columns
  = Ok (join (SQL (lit ", "))
          (map (fun c => Composed [Identifier c; SQL (lit " text")]) columns)).
Proof. unfold col_defs. now rewrite column_defs_built. Qed.

Lemma create_sql_built (schema table : str) (columns : list str) :
  create_sql schema table columns
  = Ok (Composed
          [SQL (lit "CREATE TABLE IF NOT EXISTS "); Identifier schema; SQL (lit ".");
           Identifier table; SQL (lit " (");
           join (SQL (lit ", "))
             (map (fun c => Composed [Identifier c; SQL (lit " text")]) columns);
           SQL (lit ")")]).
Proof. unfold create_sql. rewrite col_defs_built. reflexivity. Qed.

Lemma insert_template_built (schema table : str) (columns : list str) :
  insert_template schema table columns
  = Ok (Composed
          [SQL (lit "INSERT INTO "); Identifier schema; SQL (lit ".");
           Identifier table; SQL (lit " (");
           join (SQL (lit ", ")) (map Identifier columns);
           SQL (lit ") VALUES (");
           join (SQL (lit ", ")) (repeat Placeholder (List.length columns));
           SQL (lit ")")]).
Proof. reflexivity. Qed.

Lemma str_join_cons (sep item : str) (rest : list str) :
  str_join sep (item :: rest) = item ++ flat_map (fun i => sep ++ i) rest.
Proof.
  revert item. induction rest as [|x rest IH]; intros item.
  - simpl. now rewrite app_nil_r.
  - change (str_join sep (item :: x :: rest)) with (item ++ sep ++ str_join sep (x :: rest)).
    rewrite IH. simpl. now rewrite <- app_assoc.
Qed.

Lemma as_string_join (sep : str) (items : list composable) :
  as_string (join (SQL sep) items) = str_join sep (map as_string items).
Proof.
  destruct items as [|first others]; [reflexivity|].
  simpl map. rewrite str_join_cons.
  change (as_string (join (SQL sep) (first :: others)))
    with (as_string first
            ++ flat_map as_string (flat_map (fun i => [SQL sep; i]) others)).
  f_equal.
  induction others as [|i others IH]; simpl; [reflexivity|].
  now rewrite IH, <- app_assoc.
Qed.



Lemma flat_map_nil {A B} (l : list A) : flat_map (fun _ => @nil B) l = [].
Proof. induction l as [|x l IH]; simpl; auto. Qed.



(** Sanitized names hold no double quote, so quoting only wraps them. *)
Lemma quote_ident_word (name : str) :
  forallb word_char name = true -> quote_ident name = dquote :: name ++ [dquote].
Proof.
  intros H. unfold quote_ident. do 2 f_equal.
  induction name as [|c name IH]; simpl; [reflexivity|].
  simpl in H. apply andb_prop in H as [Hc Hn].
  rewrite (IH Hn).
  destruct (c =? dquote) eqn:E; [|reflexivity].
  apply N.eqb_eq in E. subst c. discriminate.
Qed.

End Statements.

(* ================================================================= *)
(** ** Every run of main follows one of the paths *)

Ltac run_step :=
  cbv beta iota zeta delta
    [main bind lift try_except try_finally open_csv next connect execute commit
     close emit print_stdout print_stderr sys_exit raise ret of_err fst snd
     is_StopIteration is_FileNotFoundError];
  cbn [records ending app].

Ltac in_cases :=
  repeat match goal with
         | H : In _ [] |- _ => destruct H
         | H : In _ (_ :: _) |- _ => destruct H as [H|H]
         | H : In _ (_ ++ _) |- _ => apply in_app_or in H; destruct H as [H|H]
         | H : In _ (map (inserted _) _) |- _ =>
             apply in_map_iff in H; destruct H as (? & H & ?); unfold inserted in H
         end.

Section Paths.

Variable w : env.

Lemma for_in_insert_step (ins : composable) (ending : option exn)
      (row : list str) (rows : list (list str)) (n : nat) (t : list event) :
  for_in (row :: rows) ending (insert_body ins) n w t
  = match db_execute w t ins (Some row) with
    | Some e => (Raise e, t ++ [EvExecute ins (Some row) (Some e)])
    | None => for_in rows ending (insert_body ins) (S n) w
                (t ++ [EvExecute ins (Some row) None])
    end.
Proof.
  cbn [for_in]. unfold bind at 1. unfold insert_body at 1.
  unfold bind, execute, ret. cbv beta.
  destruct (db_execute w t ins (Some row)); reflexivity.
Qed.

(** The insert loop: all rows go through, or the reader fails after the
    last one, or an insert fails and the rest is skipped. *)
Lemma for_in_inserts (ins : composable) (ending : option exn) (rows : list (list str)) :
  forall (n : nat) (t : list event),
    (ended ending = StopIteration
     /\ for_in rows ending (insert_body ins) n w t
        = (Ok (n + List.length rows)%nat, t ++ map (inserted ins) rows))
    \/ (exists e, ending = Some e /\ e <> StopIteration
        /\ for_in rows ending (insert_body ins) n w t
           = (Raise e, t ++ map (inserted ins) rows))
    \/ (exists done row rest e,
          rows = done ++ row :: rest
          /\ for_in rows ending (insert_body ins) n w t
             = (Raise e, t ++ map (inserted ins) done ++ [EvExecute ins (Some row) (Some e)])).
Proof.
  induction rows as [|row rows IH]; intros n t.
  - simpl. rewrite app_nil_r, Nat.add_0_r.
    destruct ending as [e|]; [|left; split; reflexivity].
    destruct e;
      try (left; split; reflexivity);
      right; left; eexists; (split; [reflexivity|]); (split; [discriminate|reflexivity]).
  - rewrite for_in_insert_step.
    destruct (db_execute w t ins (Some row)) as [e|] eqn:E.
    + right; right. exists [], row, rows, e. split; reflexivity.
    + destruct (IH (S n) (t ++ [EvExecute ins (Some row) None]))
        as [[Hend H] | [(e & He & Hne & H) | (done & r & rest & e & Hrows & H)]];
        rewrite H.
      * left. split; [exact Hend|]. simpl. rewrite <- app_assoc, Nat.add_succ_r. reflexivity.
      * right; left. exists e. repeat split; auto. simpl. now rewrite <- app_assoc.
      * right; right. exists (row :: done), r, rest, e. split.
        -- now rewrite Hrows.
        -- simpl. now rewrite <- app_assoc.
Qed.

Lemma session_path (a : args) (s t : str) (rd : reader) (h : list str)
      (rest : list (list str)) (cs ins : composable) (r : result unit)
      (body tr : list event) :
  sanitize_identifier (schema a) = Ok s ->
  sanitize_identifier (table a) = Ok t ->
  records rd = h :: rest ->
  create_sql s t (map sanitize_column h) = Ok cs ->
  insert_template s t (map sanitize_column h) = Ok ins ->
  session_run cs ins (csv a) (fun n => loaded_message n (csv a) s t) r body ->
  tr = [EvOpen (csv a) (Some []) (Ok rd);
        EvConnect (host a) (port a) (dbname a) (user a) (password a) None]
         ++ body ++ [EvClose] ->
  main_run a r tr.
Proof. intros. subst tr. eapply R_session; eauto. Qed.

Lemma main_runs (a : args) : main_run a (outcome w a) (trace w a).
Proof.
  unfold outcome, trace, run. run_step.
  destruct (sanitize_identifier (schema a)) as [s|e] eqn:Hs; run_step;
    [|now apply R_bad_schema].
  destruct (sanitize_identifier (table a)) as [tb|e] eqn:Ht; run_step;
    [|now apply R_bad_table with s].
  destruct (fs_open w [] (csv a) (Some [])) as [rd|e] eqn:Ho; run_step.
  2:{ destruct e; run_step;
      try (eapply R_open_fails; eauto; discriminate).
      eapply R_not_found; eauto. }
  destruct (records rd) as [|h rest] eqn:Hr; run_step.
  { destruct (ending rd) as [e|] eqn:He; run_step.
    - destruct e; run_step;
        try (eapply R_header_fails; eauto; discriminate).
      + eapply R_header_not_found; eauto.
      + eapply R_empty; eauto. now rewrite He.
    - eapply R_empty; eauto. now rewrite He. }
  destruct (db_connect w _ (host a) (port a) (dbname a) (user a) (password a))
    as [e|] eqn:Hc; run_step.
  { eapply R_connect_fails; eauto. }
  destruct (create_sql s tb (map sanitize_column h)) as [cs|e] eqn:Hcs;
    [|rewrite create_sql_built in Hcs; discriminate].
  destruct (insert_template s tb (map sanitize_column h)) as [ins|e] eqn:Hins;
    [|rewrite insert_template_built in Hins; discriminate].
  run_step.
  assert (Hpath : forall r body tr,
             session_run cs ins (csv a) (fun n => loaded_message n (csv a) s tb) r body ->
             tr = [EvOpen (csv a) (Some []) (Ok rd);
                   EvConnect (host a) (port a) (dbname a) (user a) (password a) None]
                    ++ body ++ [EvClose] ->
             main_run a r tr)
    by (intros; eapply (session_path a s tb rd h rest cs ins); eassumption).
  destruct (db_execute w _ cs None) as [e|] eqn:Hx; run_step.
  { eapply Hpath; [apply S_create_fails | reflexivity]. }
  destruct (fs_open w _ (csv a) None) as [rd2|e] eqn:Ho2; run_step.
  2:{ eapply Hpath; [apply S_reopen_fails | reflexivity]. }
  destruct (records rd2) as [|h2 rows] eqn:Hr2; run_step.
  { eapply Hpath; [apply S_no_header; exact Hr2 | reflexivity]. }
  match goal with
  | |- context [for_in ?rows ?e ?body ?n w ?T] =>
      change (for_in rows e body n w T)
        with (for_in rows e (insert_body ins) n w T);
      destruct (for_in_inserts ins e rows n T)
        as [[Hend H] | [(x & He & Hne & H) | (done & row & rest' & x & Hrows & H)]];
      rewrite H; clear H
  end; run_step.
  - destruct (db_commit w _) as [e|] eqn:Hcm; run_step.
    + eapply Hpath; [eapply S_commit_fails; eassumption|].
      rewrite <- !app_assoc. reflexivity.
    + eapply Hpath; [eapply S_success; eassumption|].
      rewrite <- !app_assoc. reflexivity.
  - eapply Hpath; [eapply S_read_fails; eassumption|].
    rewrite <- ?app_assoc. reflexivity.
  - eapply Hpath;
      [eapply S_insert_fails; rewrite Hr2, Hrows; reflexivity|].
    rewrite <- ?app_assoc. reflexivity.
Qed.

End Paths.

(* ================================================================= *)
(** ** The sanitizers: claims *)

Lemma sanitize_identifier_ok (name r : str) :
  sanitize_identifier name = Ok r ->
  r = re_sub_non_word (strip name) /\ r <> [].
Proof.
  unfold sanitize_identifier.
  destruct (re_sub_non_word (strip name)) as [|c s]; simpl; [discriminate|].
  intros [= <-]. split; [reflexivity | discriminate].
Qed.

Lemma sanitize_identifier_blank (name : str) :
  re_sub_non_word (strip name) = [] ->
  sanitize_identifier name = Raise (ValueError (lit "Invalid identifier")).
Proof. unfold sanitize_identifier. intros ->. reflexivity. Qed.

(** C1, as stated, fails on [" a"]: the leading blank is removed, not
    replaced, so the result is ["a"] and not ["_a"]. *)
Lemma sanitize_identifier_drops_outer_blanks :
  sanitize_identifier (lit " a") = Ok (lit "a")
  /\ re_sub_non_word (lit " a") = lit "_a"
  /\ ~ (forall r, sanitize_identifier (lit " a") = Ok r -> r = re_sub_non_word (lit " a")).
Proof.
  split; [reflexivity|]. split; [reflexivity|].
  intros H. specialize (H (lit "a") eq_refl). discriminate H.
Qed.

(** C1 (amended): when [sanitize_identifier] succeeds, its result is the
    input without its leading and trailing whitespace, with every
    character outside [[0-9A-Za-z_]] replaced one for one by an
    underscore: same length as the trimmed input, the allowed characters
    kept in place, an underscore at every other position; it contains
    only allowed characters and is not empty. *)
Theorem sanitize_identifier_replaces_in_trimmed (name r : str) :
  sanitize_identifier name = Ok r ->
  List.length r = List.length (strip name)
  /\ (forall i c, nth_error (strip name) i = Some c ->
        nth_error r i = Some (if word_char c then c else underscore))
  /\ forallb word_char r = true
  /\ r <> [].
Proof.
  intros H. apply sanitize_identifier_ok in H as [-> Hne].
  split; [apply re_sub_non_word_length|].
  split; [|split; [apply re_sub_non_word_class | exact Hne]].
  intros i c Hc. unfold re_sub_non_word.
  rewrite nth_error_map, Hc. reflexivity.
Qed.

Lemma sanitize_identifier_replaces_in_trimmed_witness :
  List.length (lit "my_table") = List.length (strip (lit " my table "))
  /\ (forall i c, nth_error (strip (lit " my table ")) i = Some c ->
        nth_error (lit "my_table") i = Some (if word_char c then c else underscore))
  /\ forallb word_char (lit "my_table") = true
  /\ lit "my_table" <> [].
Proof.
  apply (sanitize_identifier_replaces_in_trimmed (lit " my table ") (lit "my_table")).
  reflexivity.
Defined.

(** C2: for every string, [sanitize_column] returns a string made of
    characters of [[0-9A-Za-z_]] only, not empty, and not starting with
    a digit. *)
Theorem sanitize_column_valid (name : str) :
  forallb word_char (sanitize_column name) = true
  /\ sanitize_column name <> []
  /\ re_match_leading_digit (sanitize_column name) = false.
Proof. apply sanitize_column_props. Qed.

(** C9: the header ["Permit #", "2nd Street", "notes"] gives the
    columns ["Permit__", "c_2nd_Street", "notes"]. *)
Theorem sanitize_permits_header :
  map sanitize_column [lit "Permit #"; lit "2nd Street"; lit "notes"]
  = [lit "Permit__"; lit "c_2nd_Street"; lit "notes"].
Proof. vm_compute. reflexivity. Qed.

(** C10: [sanitize_column] is idempotent. *)
Theorem sanitize_column_idempotent (name : str) :
  sanitize_column (sanitize_column name) = sanitize_column name.
Proof.
  destruct (sanitize_column_props name) as (Hw & Hne & Hd).
  now apply sanitize_column_fixed.
Qed.

(* ================================================================= *)
(** ** Failures before the database is reached *)

(** C3: if the sanitized schema name or the sanitized table name is
    empty, the run fails with the invalid-identifier error
    ([ValueError("Invalid identifier")]) and its trace is empty: no file
    was opened and no connection was attempted. *)
Theorem invalid_identifier_before_io (w : env) (a : args) :
  re_sub_non_word (strip (schema a)) = []
  \/ re_sub_non_word (strip (table a)) = [] ->
  outcome w a = Raise (ValueError (lit "Invalid identifier"))
  /\ trace w a = [].
Proof.
  intros H. unfold outcome, trace, run. run_step.
  destruct (sanitize_identifier (schema a)) as [s|e] eqn:Hs.
  - destruct H as [H|H].
    + rewrite (sanitize_identifier_blank _ H) in Hs. discriminate.
    + run_step. rewrite (sanitize_identifier_blank _ H). run_step. split; reflexivity.
  - run_step. unfold sanitize_identifier in Hs.
    destruct (is_empty (re_sub_non_word (strip (schema a)))); [|discriminate].
    injection Hs as <-. split; reflexivity.
Qed.

Lemma invalid_identifier_before_io_witness :
  outcome permits_world blank_schema_args = Raise (ValueError (lit "Invalid identifier"))
  /\ trace permits_world blank_schema_args = [].
Proof.
  apply (invalid_identifier_before_io permits_world blank_schema_args).
  left. reflexivity.
Defined.

Lemma sanitize_identifier_raises (name : str) (e : exn) :
  sanitize_identifier name = Raise e -> e = ValueError (lit "Invalid identifier").
Proof.
  unfold sanitize_identifier.
  destruct (is_empty (re_sub_non_word (strip name))); [|discriminate].
  now intros [= <-].
Qed.

(** C4: when the CSV path does not exist, or the file holds no record
    at all, the exit code is 1 and no connection is attempted; the run
    (schema and table names being valid, so that the file is reached)
    ends in [sys.exit(1)] after one message on standard error, which
    names the path when the file is missing. *)
Theorem missing_or_empty_csv_exits (w : env) (a : args) :
  fs_open w [] (csv a) (Some []) = Raise FileNotFoundError
  \/ (exists rd, fs_open w [] (csv a) (Some []) = Ok rd
                 /\ records rd = [] /\ ending rd = None) ->
  exit_code (outcome w a) = 1%Z
  /\ (forall h p d u pw err, ~ In (EvConnect h p d u pw err) (trace w a))
  /\ (forall s t,
        sanitize_identifier (schema a) = Ok s ->
        sanitize_identifier (table a) = Ok t ->
        outcome w a = Raise (SystemExit 1)
        /\ (fs_open w [] (csv a) (Some []) = Raise FileNotFoundError ->
            trace w a = [EvOpen (csv a) (Some []) (Raise FileNotFoundError);
                         EvStderr (lit "CSV file not found: " ++ csv a)])
        /\ (forall rd, fs_open w [] (csv a) (Some []) = Ok rd ->
              trace w a = [EvOpen (csv a) (Some []) (Ok rd);
                           EvStderr (lit "CSV file is empty")])).
Proof.
  intros Hfile. unfold outcome, trace.
  destruct (sanitize_identifier (schema a)) as [s|e] eqn:Hs.
  2:{ assert (Hrun : run w a = (Raise e, [])).
      { unfold run. run_step. rewrite Hs. reflexivity. }
      rewrite Hrun. apply sanitize_identifier_raises in Hs as ->.
      split; [reflexivity|]. split; [intros h p d u pw err []|].
      intros s t [=]. }
  destruct (sanitize_identifier (table a)) as [t|e] eqn:Ht.
  2:{ assert (Hrun : run w a = (Raise e, [])).
      { unfold run. run_step. rewrite Hs. run_step. rewrite Ht. reflexivity. }
      rewrite Hrun. apply sanitize_identifier_raises in Ht as ->.
      split; [reflexivity|]. split; [intros h p d u pw err []|].
      intros s' t' _ [=]. }
  destruct Hfile as [Ho | (rd & Ho & Hr & He)].
  - assert (Hrun : run w a
                   = (Raise (SystemExit 1),
                      [EvOpen (csv a) (Some []) (Raise FileNotFoundError);
                       EvStderr (lit "CSV file not found: " ++ csv a)])).
    { unfold run. run_step. rewrite Hs. run_step. rewrite Ht. run_step.
      rewrite Ho. run_step. reflexivity. }
    rewrite Hrun. cbn [fst snd]. split; [reflexivity|]. split.
    + intros h p d u pw err Hin. in_cases; discriminate.
    + intros _ _ _ _. split; [reflexivity|]. split; [reflexivity|].
      intros rd Hrd. congruence.
  - assert (Hrun : run w a
                   = (Raise (SystemExit 1),
                      [EvOpen (csv a) (Some []) (Ok rd);
                       EvStderr (lit "CSV file is empty")])).
    { unfold run. run_step. rewrite Hs. run_step. rewrite Ht. run_step.
      rewrite Ho. run_step. rewrite Hr. run_step. rewrite He. run_step.
      reflexivity. }
    rewrite Hrun. cbn [fst snd]. split; [reflexivity|]. split.
    + intros h p d u pw err Hin. in_cases; discriminate.
    + intros _ _ _ _. split; [reflexivity|]. split; [congruence|].
      intros rd' Hrd. congruence.
Qed.

Lemma missing_or_empty_csv_exits_witness :
  (exit_code (outcome missing_file_world permits_args) = 1%Z
   /\ (forall h p d u pw err,
         ~ In (EvConnect h p d u pw err) (trace missing_file_world permits_args))
   /\ outcome missing_file_world permits_args = Raise (SystemExit 1)
   /\ trace missing_file_world permits_args
      = [EvOpen (lit "permits.csv") (Some []) (Raise FileNotFoundError);
         EvStderr (lit "CSV file not found: permits.csv")])
  /\ (exit_code (outcome empty_file_world permits_args) = 1%Z
      /\ outcome empty_file_world permits_args = Raise (SystemExit 1)
      /\ trace empty_file_world permits_args
         = [EvOpen (lit "permits.csv") (Some []) (Ok {| records := []; ending := None |});
            EvStderr (lit "CSV file is empty")]).
Proof.
  split.
  - destruct (missing_or_empty_csv_exits missing_file_world permits_args
                (or_introl eq_refl)) as (Hcode & Hconn & Hmsg).
    destruct (Hmsg (lit "public") (lit "permits") eq_refl eq_refl)
      as (Hout & Hmiss & _).
    exact (conj Hcode (conj Hconn (conj Hout (Hmiss eq_refl)))).
  - destruct (missing_or_empty_csv_exits empty_file_world permits_args) as (Hcode & _ & Hmsg).
    { right. eexists. repeat split. }
    destruct (Hmsg (lit "public") (lit "permits") eq_refl eq_refl)
      as (Hout & _ & Hempty).
    exact (conj Hcode (conj Hout (Hempty _ eq_refl))).
Defined.

(* ================================================================= *)
(** ** The successful run *)




(* ================================================================= *)
(** ** What the traces of the paths contain *)

Section PathFacts.

Variables (cs ins : composable) (path : str) (msg : nat -> str).

Lemma session_commit (r : result unit) (body : list event) (err : option exn) :
  session_run cs ins path msg r body ->
  In (EvCommit err) body ->
  exists rd h2 rows,
    records rd = h2 :: rows
    /\ r = of_err err
    /\ body = [EvExecute cs None None; EvOpen path None (Ok rd)]
                ++ map (inserted ins) rows
                ++ EvCommit err :: after_commit msg rows err.
Proof.
  intros R Hin.
  destruct R; in_cases; try discriminate;
    match goal with H : _ = EvCommit _ |- _ => injection H as <- end;
    exists rd, h2, rows; repeat split; assumption.
Qed.

Lemma session_statements (r : result unit) (body : list event)
      (q : composable) (v : option (list str)) (e : option exn) :
  session_run cs ins path msg r body ->
  In (EvExecute q v e) body ->
  (q = cs /\ v = None) \/ (q = ins /\ exists row, v = Some row).
Proof.
  intros R Hin.
  destruct R; in_cases; try discriminate;
    match goal with H : _ = EvExecute _ _ _ |- _ => injection H as <- <- <- end;
    solve [left; split; reflexivity | right; split; [reflexivity | eexists; reflexivity]].
Qed.


Lemma session_leaves_connection (r : result unit) (body : list event) :
  session_run cs ins path msg r body ->
  ~ In EvClose body
  /\ forall h p d u pw err, ~ In (EvConnect h p d u pw err) body.
Proof.
  intros R. split; [intros Hin | intros h p d u pw err Hin];
    destruct R; in_cases; discriminate.
Qed.

Lemma session_reads_rows_only (r : result unit) (body : list event)
      (p : str) (x : result reader) :
  session_run cs ins path msg r body ->
  ~ In (EvOpen p (Some []) x) body.
Proof.
  intros R Hin. destruct R; in_cases; discriminate.
Qed.


End PathFacts.

(* ================================================================= *)
(** ** The transaction and the connection *)

Lemma main_run_commit (a : args) (r : result unit) (tr : list event) (err : option exn) :
  main_run a r tr ->
  In (EvCommit err) tr ->
  exists s t rd h rest cs ins rd2 h2 rows,
    sanitize_identifier (schema a) = Ok s
    /\ sanitize_identifier (table a) = Ok t
    /\ records rd = h :: rest
    /\ create_sql s t (map sanitize_column h) = Ok cs
    /\ insert_template s t (map sanitize_column h) = Ok ins
    /\ records rd2 = h2 :: rows
    /\ r = of_err err
    /\ tr = [EvOpen (csv a) (Some []) (Ok rd);
             EvConnect (host a) (port a) (dbname a) (user a) (password a) None;
             EvExecute cs None None;
             EvOpen (csv a) None (Ok rd2)]
              ++ map (inserted ins) rows
              ++ EvCommit err
                 :: after_commit (fun n => loaded_message n (csv a) s t) rows err
              ++ [EvClose].
Proof.
  intros R Hin. destruct R; in_cases; try discriminate.
  match goal with
  | S : session_run _ _ _ _ _ _ |- _ =>
      destruct (session_commit _ _ _ _ _ _ _ S Hin) as (rd2 & h2 & rows & Hr2 & Hres & ->)
  end.
  exists s, t, rd, h, rest, cs, ins, rd2, h2, rows.
  repeat (split; [assumption|]).
  cbn [app]. rewrite <- !app_assoc. cbn [app]. reflexivity.
Qed.






(* ================================================================= *)
(** ** One column list for every statement *)




(* ================================================================= *)
(** ** The CREATE TABLE statement *)

Lemma sql_texts_join (sep : str) (items : list composable) (x : str) :
  In x (sql_texts (join (SQL sep) items)) ->
  x = sep \/ exists i, In i items /\ In x (sql_texts i).
Proof.
  destruct items as [|first others]; [intros []|].
  change (sql_texts (join (SQL sep) (first :: others)))
    with (sql_texts first
            ++ flat_map sql_texts (flat_map (fun i => [SQL sep; i]) others)).
  intros H. apply in_app_or in H as [H|H].
  - right. exists first. split; [left; reflexivity | exact H].
  - induction others as [|i others IH]; [destruct H|].
    cbn [flat_map app sql_texts] in H.
    destruct H as [H|H]; [left; now symmetry|].
    apply in_app_or in H as [H|H].
    + right. exists i. split; [right; left; reflexivity | exact H].
    + destruct (IH H) as [Hs | (j & [Hj|Hj] & Hx)]; [now left | ..].
      * right. exists j. split; [left; exact Hj | exact Hx].
      * right. exists j. split; [right; right; exact Hj | exact Hx].
Qed.

Lemma as_string_create (s t : str) (columns : list str) (q : composable) :
  create_sql s t columns = Ok q ->
  as_string q
  = lit "CREATE TABLE IF NOT EXISTS " ++ quote_ident s ++ lit "." ++ quote_ident t
    ++ lit " (" ++ str_join (lit ", ") (map (fun c => quote_ident c ++ lit " text") columns)
    ++ lit ")".
Proof.
  rewrite create_sql_built. intros [= <-].
  cbn [as_string flat_map]. rewrite as_string_join, map_map.
  cbn [as_string flat_map]. rewrite app_nil_r.
  reflexivity.
Qed.

Lemma sql_texts_create (s t : str) (columns : list str) (q : composable) :
  create_sql s t columns = Ok q ->
  Forall (fun text => In text [lit "CREATE TABLE IF NOT EXISTS "; lit "."; lit " (";
                               lit " text"; lit ", "; lit ")"])
         (sql_texts q).
Proof.
  rewrite create_sql_built. intros [= <-].
  apply Forall_forall. intros x Hx.
  cbn [sql_texts flat_map] in Hx. rewrite app_nil_r in Hx.
  cbn [app] in Hx.
  destruct Hx as [<- | [<- | [<- | Hx]]];
    [left; reflexivity | right; left; reflexivity | do 2 right; left; reflexivity |].
  apply in_app_or in Hx as [Hx | [<- | []]]; [|do 5 right; left; reflexivity].
  apply sql_texts_join in Hx as [-> | (i & Hi & Hx)];
    [do 4 right; left; reflexivity|].
  apply in_map_iff in Hi as (c & <- & _).
  cbn in Hx. destruct Hx as [<- | []]. do 3 right. left. reflexivity.
Qed.

Lemma main_run_create (a : args) (r : result unit) (tr : list event)
      (q : composable) (e : option exn) :
  main_run a r tr ->
  In (EvExecute q None e) tr ->
  exists s t rd h rest,
    sanitize_identifier (schema a) = Ok s
    /\ sanitize_identifier (table a) = Ok t
    /\ In (EvOpen (csv a) (Some []) (Ok rd)) tr
    /\ records rd = h :: rest
    /\ create_sql s t (map sanitize_column h) = Ok q.
Proof.
  intros R Hin. destruct R; in_cases; try discriminate.
  match goal with
  | S : session_run _ _ _ _ _ _ |- _ =>
      destruct (session_statements _ _ _ _ _ _ _ _ _ S Hin)
        as [[-> _] | [_ [row Hrow]]]; [|discriminate Hrow]
  end.
  exists s, t, rd, h, rest. repeat (split; [assumption|]).
  split; [left; reflexivity|]. split; assumption.
Qed.

(** C8: the statement executed without parameters is
    [CREATE TABLE IF NOT EXISTS <schema>.<table> (<col1> text, ...)]:
    schema and table are the sanitized names, the columns are the
    sanitized header fields in header order, each followed by [text].
    Every name enters the statement as an [Identifier] fragment, which
    is rendered between double quotes, and the literal SQL fragments are
    the fixed pieces of the template. *)
Theorem create_table_statement (w : env) (a : args) (q : composable) (e : option exn) :
  In (EvExecute q None e) (trace w a) ->
  exists s t rd h rest,
    sanitize_identifier (schema a) = Ok s
    /\ sanitize_identifier (table a) = Ok t
    /\ In (EvOpen (csv a) (Some []) (Ok rd)) (trace w a)
    /\ records rd = h :: rest
    /\ q = Composed
             [SQL (lit "CREATE TABLE IF NOT EXISTS "); Identifier s; SQL (lit ".");
              Identifier t; SQL (lit " (");
              join (SQL (lit ", "))
                (map (fun c => Composed [Identifier c; SQL (lit " text")])
                   (map sanitize_column h));
              SQL (lit ")")]
    /\ as_string q
       = lit "CREATE TABLE IF NOT EXISTS " ++ quote_ident s ++ lit "." ++ quote_ident t
         ++ lit " ("
         ++ str_join (lit ", ")
              (map (fun c => quote_ident c ++ lit " text") (map sanitize_column h))
         ++ lit ")"
    /\ Forall (fun name => quote_ident name = dquote :: name ++ [dquote])
              (s :: t :: map sanitize_column h)
    /\ Forall (fun text => In text [lit "CREATE TABLE IF NOT EXISTS "; lit "."; lit " (";
                                    lit " text"; lit ", "; lit ")"])
              (sql_texts q).
Proof.
  intros Hin.
  destruct (main_run_create _ _ _ _ _ (main_runs w a) Hin)
    as (s & t & rd & h & rest & Hs & Ht & Ho & Hr & Hq).
  exists s, t, rd, h, rest. repeat (split; [assumption|]).
  split; [|split; [|split]].
  - rewrite create_sql_built in Hq. now injection Hq as <-.
  - now apply as_string_create.
  - apply sanitize_identifier_ok in Hs as [-> _], Ht as [-> _].
    repeat constructor; try (apply quote_ident_word, re_sub_non_word_class).
    apply Forall_forall. intros c Hc. apply in_map_iff in Hc as (x & <- & _).
    apply quote_ident_word, sanitize_column_props.
  - eapply sql_texts_create; eassumption.
Qed.

Lemma create_table_statement_witness :
  exists q,
    In (EvExecute q None None) (trace permits_world permits_args)
    /\ exists s t rd h rest,
         sanitize_identifier (schema permits_args) = Ok s
         /\ sanitize_identifier (table permits_args) = Ok t
         /\ In (EvOpen (csv permits_args) (Some []) (Ok rd)) (trace permits_world permits_args)
         /\ records rd = h :: rest
         /\ q = Composed
                  [SQL (lit "CREATE TABLE IF NOT EXISTS "); Identifier s; SQL (lit ".");
                   Identifier t; SQL (lit " (");
                   join (SQL (lit ", "))
                     (map (fun c => Composed [Identifier c; SQL (lit " text")])
                        (map sanitize_column h));
                   SQL (lit ")")]
         /\ as_string q
            = lit "CREATE TABLE IF NOT EXISTS " ++ quote_ident s ++ lit "." ++ quote_ident t
              ++ lit " ("
              ++ str_join (lit ", ")
                   (map (fun c => quote_ident c ++ lit " text") (map sanitize_column h))
              ++ lit ")"
         /\ Forall (fun name => quote_ident name = dquote :: name ++ [dquote])
                   (s :: t :: map sanitize_column h)
         /\ Forall (fun text => In text [lit "CREATE TABLE IF NOT EXISTS "; lit ".";
                                         lit " ("; lit " text"; lit ", "; lit ")"])
                   (sql_texts q).
Proof.
  eexists. split; [do 2 right; left; reflexivity|].
  apply (create_table_statement permits_world permits_args _ None).
  do 2 right. left. reflexivity.
Defined.

(* ================================================================= *)
(** ** Whitespace and the sanitizers *)

Section Whitespace.

Lemma lstrip_blank (s : str) : forallb isspace s = true -> lstrip s = [].
Proof.
  induction s as [|c s IH]; simpl; [reflexivity|].
  intros H. apply andb_prop in H as [Hc Hs]. rewrite Hc. auto.
Qed.

Lemma lstrip_nil_blank (s : str) : lstrip s = [] -> forallb isspace s = true.
Proof.
  induction s as [|c s IH]; simpl; [reflexivity|].
  destruct (isspace c); [auto | discriminate].
Qed.

Lemma lstrip_head (s : str) (c : char) (rest : str) :
  lstrip s = c :: rest -> isspace c = false.
Proof.
  induction s as [|x s IH]; simpl; [discriminate|].
  destruct (isspace x) eqn:E; [exact IH|].
  intros [= <- _]. exact E.
Qed.

Lemma lstrip_app_blank (l s : str) :
  forallb isspace l = true -> lstrip (l ++ s) = lstrip s.
Proof.
  induction l as [|c l IH]; simpl; [reflexivity|].
  intros H. apply andb_prop in H as [Hc Hl]. rewrite Hc. auto.
Qed.

Lemma lstrip_app_kept (s r : str) :
  lstrip s <> [] -> lstrip (s ++ r) = lstrip s ++ r.
Proof.
  induction s as [|c s IH]; simpl; [contradiction|].
  destruct (isspace c); [exact IH | reflexivity].
Qed.

Lemma lstrip_rev_kept (s : str) :
  lstrip s <> [] -> lstrip (List.rev (lstrip s)) <> [].
Proof.
  intros Hne Hnil. apply lstrip_nil_blank in Hnil.
  destruct (lstrip s) as [|c rest] eqn:E; [contradiction|].
  apply lstrip_head in E.
  rewrite forallb_forall in Hnil.
  specialize (Hnil c). rewrite <- in_rev in Hnil.
  rewrite (Hnil (or_introl eq_refl)) in E. discriminate.
Qed.

Lemma strip_blank (s : str) : forallb isspace s = true -> strip s = [].
Proof. intros H. unfold strip, rstrip. now rewrite (lstrip_blank s H). Qed.

Lemma strip_nil_blank (s : str) : strip s = [] -> forallb isspace s = true.
Proof.
  unfold strip, rstrip. intros H.
  apply lstrip_nil_blank.
  destruct (lstrip s) as [|c rest] eqn:E; [reflexivity|].
  exfalso. apply (lstrip_rev_kept s); [rewrite E; discriminate|].
  rewrite E. apply (f_equal (@List.rev char)) in H.
  rewrite rev_involutive in H. exact H.
Qed.

Lemma rstrip_app_blank (s r : str) :
  forallb isspace r = true -> rstrip (s ++ r) = rstrip s.
Proof.
  intros H. unfold rstrip. rewrite rev_app_distr.
  now rewrite lstrip_app_blank by now apply forallb_rev.
Qed.

Lemma strip_outer (l s r : str) :
  forallb isspace l = true -> forallb isspace r = true ->
  strip (l ++ s ++ r) = strip s.
Proof.
  intros Hl Hr. unfold strip. rewrite (lstrip_app_blank l _ Hl).
  destruct (lstrip s) as [|c rest] eqn:E.
  - rewrite (lstrip_app_blank s r (lstrip_nil_blank s E)), (lstrip_blank r Hr).
    reflexivity.
  - rewrite lstrip_app_kept by (rewrite E; discriminate).
    rewrite E. now apply rstrip_app_blank.
Qed.

End Whitespace.

(** X1: [sanitize_identifier] raises its [ValueError] exactly on the
    names made of whitespace only (the empty name included); on every
    other name it returns a result. *)
Theorem sanitize_identifier_fails_iff_blank (name : str) :
  (sanitize_identifier name = Raise (ValueError (lit "Invalid identifier"))
   <-> forallb isspace name = true)
  /\ ((exists r, sanitize_identifier name = Ok r) <-> forallb isspace name = false).
Proof.
  assert (Hb : forallb isspace name = true ->
               sanitize_identifier name = Raise (ValueError (lit "Invalid identifier"))).
  { intros H. apply sanitize_identifier_blank. now rewrite (strip_blank name H). }
  assert (Hn : forallb isspace name = false -> exists r, sanitize_identifier name = Ok r).
  { intros H. unfold sanitize_identifier.
    destruct (strip name) as [|c s] eqn:E.
    - apply strip_nil_blank in E. congruence.
    - simpl. eexists. reflexivity. }
  split; split; auto.
  - intros H. destruct (forallb isspace name) eqn:E; [reflexivity|].
    destruct (Hn eq_refl) as [r Hr]. congruence.
  - intros [r Hr]. destruct (forallb isspace name) eqn:E; [|reflexivity].
    rewrite (Hb eq_refl) in Hr. discriminate.
Qed.

(** X2: a header field made of whitespace only (or empty) becomes the
    column ["col"]. *)
Theorem sanitize_column_blank (name : str) :
  forallb isspace name = true -> sanitize_column name = lit "col".
Proof.
  intros H. unfold sanitize_column. rewrite (strip_blank name H). reflexivity.
Qed.

Lemma sanitize_column_blank_witness :
  sanitize_column [32; 9; 160] = lit "col".
Proof. apply (sanitize_column_blank [32; 9; 160]). reflexivity. Defined.

(** X3: both sanitizers ignore whitespace around the name. *)
Theorem sanitizers_ignore_outer_whitespace (l name r : str) :
  forallb isspace l = true -> forallb isspace r = true ->
  sanitize_column (l ++ name ++ r) = sanitize_column name
  /\ sanitize_identifier (l ++ name ++ r) = sanitize_identifier name.
Proof.
  intros Hl Hr. unfold sanitize_column, sanitize_identifier.
  rewrite (strip_outer l name r Hl Hr). split; reflexivity.
Qed.

Lemma sanitizers_ignore_outer_whitespace_witness :
  sanitize_column (lit "  " ++ lit "2nd Street" ++ [9; 10])
  = sanitize_column (lit "2nd Street")
  /\ sanitize_identifier (lit "  " ++ lit "2nd Street" ++ [9; 10])
     = sanitize_identifier (lit "2nd Street").
Proof.
  apply (sanitizers_ignore_outer_whitespace (lit "  ") (lit "2nd Street") [9; 10]);
    reflexivity.
Defined.

(** X4: the strings [sanitize_column] leaves unchanged are exactly the
    valid column names: non-empty, made of [[0-9A-Za-z_]], not starting
    with a digit. *)
Theorem sanitize_column_fixed_points (s : str) :
  sanitize_column s = s
  <-> (forallb word_char s = true /\ s <> [] /\ re_match_leading_digit s = false).
Proof.
  split.
  - intros H. rewrite <- H. apply sanitize_column_props.
  - intros (Hw & Hne & Hd). now apply sanitize_column_fixed.
Qed.

(** X5: a name [sanitize_identifier] returns is accepted unchanged when
    sanitized again. *)
Theorem sanitize_identifier_idempotent (name r : str) :
  sanitize_identifier name = Ok r -> sanitize_identifier r = Ok r.
Proof.
  intros H. apply sanitize_identifier_ok in H as [Hr Hne].
  assert (Hw : forallb word_char r = true) by (subst r; apply re_sub_non_word_class).
  unfold sanitize_identifier.
  rewrite (strip_word r Hw), (re_sub_non_word_fixed r Hw).
  destruct r; [contradiction | reflexivity].
Qed.

Lemma sanitize_identifier_idempotent_witness :
  sanitize_identifier (lit "my_table") = Ok (lit "my_table").
Proof.
  apply (sanitize_identifier_idempotent (lit " my table ") (lit "my_table")).
  reflexivity.
Defined.

(** X6: where [sanitize_identifier] accepts a name, [sanitize_column]
    returns the same string for it, with ["c_"] in front exactly when
    that string starts with a digit; so an identifier, unlike a column,
    may start with a digit. *)
Theorem sanitize_column_of_identifier (name r : str) :
  sanitize_identifier name = Ok r ->
  sanitize_column name = (if re_match_leading_digit r then lit "c_" ++ r else r).
Proof.
  intros H. apply sanitize_identifier_ok in H as [Hr Hne].
  unfold sanitize_column. rewrite <- Hr.
  destruct r; [contradiction | reflexivity].
Qed.

Lemma sanitize_column_of_identifier_witness :
  sanitize_column (lit "2024 permits") = lit "c_" ++ lit "2024_permits".
Proof.
  apply (sanitize_column_of_identifier (lit "2024 permits") (lit "2024_permits")).
  reflexivity.
Defined.

(* ================================================================= *)
(** ** The insert statement *)

Lemma as_string_insert (s t : str) (columns : list str) (q : composable) :
  insert_template s t columns = Ok q ->
  as_string q
  = lit "INSERT INTO " ++ quote_ident s ++ lit "." ++ quote_ident t ++ lit " ("
    ++ str_join (lit ", ") (map quote_ident columns) ++ lit ") VALUES ("
    ++ str_join (lit ", ") (repeat (lit "%s") (List.length columns)) ++ lit ")".
Proof.
  rewrite insert_template_built. intros [= <-].
  cbn [as_string flat_map]. rewrite !as_string_join, map_map, map_repeat.
  cbn [as_string]. rewrite app_nil_r. reflexivity.
Qed.

Lemma main_run_insert (a : args) (r : result unit) (tr : list event)
      (q : composable) (row : list str) (e : option exn) :
  main_run a r tr ->
  In (EvExecute q (Some row) e) tr ->
  exists s t rd h rest,
    sanitize_identifier (schema a) = Ok s
    /\ sanitize_identifier (table a) = Ok t
    /\ In (EvOpen (csv a) (Some []) (Ok rd)) tr
    /\ records rd = h :: rest
    /\ insert_template s t (map sanitize_column h) = Ok q.
Proof.
  intros R Hin. destruct R; in_cases; try discriminate.
  match goal with
  | S : session_run _ _ _ _ _ _ |- _ =>
      destruct (session_statements _ _ _ _ _ _ _ _ _ S Hin)
        as [[_ Hnone] | [-> _]]; [discriminate Hnone|]
  end.
  exists s, t, rd, h, rest. repeat (split; [assumption|]).
  split; [left; reflexivity|]. split; assumption.
Qed.

(** X7: every statement executed for a data row reads
    [INSERT INTO <schema>.<table> (<col1>, ...) VALUES (%s, ...)]: the
    sanitized names as quoted identifiers, the columns of the header in
    order, and one placeholder per header field, whatever the number of
    fields of the row it is executed with. *)
Theorem insert_statement_text (w : env) (a : args) (q : composable)
        (row : list str) (e : option exn) :
  In (EvExecute q (Some row) e) (trace w a) ->
  exists s t rd h rest,
    sanitize_identifier (schema a) = Ok s
    /\ sanitize_identifier (table a) = Ok t
    /\ In (EvOpen (csv a) (Some []) (Ok rd)) (trace w a)
    /\ records rd = h :: rest
    /\ as_string q
       = lit "INSERT INTO " ++ quote_ident s ++ lit "." ++ quote_ident t ++ lit " ("
         ++ str_join (lit ", ") (map quote_ident (map sanitize_column h))
         ++ lit ") VALUES ("
         ++ str_join (lit ", ") (repeat (lit "%s") (List.length h)) ++ lit ")".
Proof.
  intros Hin.
  destruct (main_run_insert _ _ _ _ _ _ (main_runs w a) Hin)
    as (s & t & rd & h & rest & Hs & Ht & Ho & Hr & Hq).
  exists s, t, rd, h, rest. repeat (split; [assumption|]).
  rewrite (as_string_insert _ _ _ _ Hq), length_map. reflexivity.
Qed.

Lemma insert_statement_text_witness :
  exists q,
    In (EvExecute q (Some [lit "17"; lit "Elm"; lit "ok"]) None)
       (trace permits_world permits_args)
    /\ exists s t rd h rest,
         sanitize_identifier (schema permits_args) = Ok s
         /\ sanitize_identifier (table permits_args) = Ok t
         /\ In (EvOpen (csv permits_args) (Some []) (Ok rd))
               (trace permits_world permits_args)
         /\ records rd = h :: rest
         /\ as_string q
            = lit "INSERT INTO " ++ quote_ident s ++ lit "." ++ quote_ident t ++ lit " ("
              ++ str_join (lit ", ") (map quote_ident (map sanitize_column h))
              ++ lit ") VALUES ("
              ++ str_join (lit ", ") (repeat (lit "%s") (List.length h)) ++ lit ")".
Proof.
  eexists. split; [do 4 right; left; reflexivity|].
  apply (insert_statement_text permits_world permits_args _
           [lit "17"; lit "Elm"; lit "ok"] None).
  do 4 right. left. reflexivity.
Defined.

(* ================================================================= *)
(** ** Errors of the database and of the second read *)

Section SessionErrors.

Variables (cs ins : composable) (path : str) (msg : nat -> str).

Lemma session_statement_error (r : result unit) (body : list event)
      (q : composable) (v : option (list str)) (e : exn) :
  session_run cs ins path msg r body ->
  In (EvExecute q v (Some e)) body ->
  r = Raise e /\ exists before, body = before ++ [EvExecute q v (Some e)].
Proof.
  intros R Hin.
  destruct R; in_cases; try discriminate;
    match goal with H : _ = EvExecute _ _ _ |- _ => injection H as <- <- <- end.
  - split; [reflexivity|]. exists []. reflexivity.
  - split; [reflexivity|]. eexists. rewrite app_assoc. reflexivity.
Qed.

Lemma session_reopen_error (r : result unit) (body : list event) (p : str) (e : exn) :
  session_run cs ins path msg r body ->
  In (EvOpen p None (Raise e)) body ->
  r = Raise e /\ body = [EvExecute cs None None; EvOpen path None (Raise e)].
Proof.
  intros R Hin.
  destruct R; in_cases; try discriminate.
  match goal with H : _ = EvOpen _ _ _ |- _ => injection H as _ <- end.
  split; reflexivity.
Qed.

Lemma session_reread_empty (r : result unit) (body : list event) (p : str) (rd2 : reader) :
  session_run cs ins path msg r body ->
  In (EvOpen p None (Ok rd2)) body ->
  records rd2 = [] ->
  r = Raise (ended (ending rd2))
  /\ body = [EvExecute cs None None; EvOpen path None (Ok rd2)].
Proof.
  intros R Hin Hr.
  destruct R; in_cases; try discriminate;
    match goal with H : _ = EvOpen _ _ _ |- _ => injection H as _ <- end;
    try congruence.
  split; reflexivity.
Qed.




End SessionErrors.

Lemma main_run_connect (a : args) (r : result unit) (tr : list event)
      (h : str) (p : Z) (d u pw : str) (err : option exn) :
  main_run a r tr ->
  In (EvConnect h p d u pw err) tr ->
  (h, p, d, u, pw) = (host a, port a, dbname a, user a, password a)
  /\ (forall e, err = Some e -> r = Raise e)
  /\ exists rd hd rest after,
       records rd = hd :: rest
       /\ tr = EvOpen (csv a) (Some []) (Ok rd)
                 :: EvConnect (host a) (port a) (dbname a) (user a) (password a) err
                 :: after
       /\ (err <> None -> after = [])
       /\ forall h' p' d' u' pw' err', ~ In (EvConnect h' p' d' u' pw' err') after.
Proof.
  intros R Hin. destruct R; in_cases; try discriminate.
  - injection Hin as <- <- <- <- <- <-.
    split; [reflexivity|]. split; [now intros x [= <-]|].
    exists rd, h0, rest, []. repeat split; auto.
  - injection Hin as <- <- <- <- <- <-.
    split; [reflexivity|]. split; [discriminate|].
    exists rd, h0, rest, (body ++ [EvClose]). repeat split; auto.
    + intros Hne. now contradiction Hne.
    + intros h' p' d' u' pw' err' Hc. in_cases; try discriminate.
      match goal with
      | S : session_run _ _ _ _ _ _ |- _ =>
          exact (proj2 (session_leaves_connection _ _ _ _ _ _ S) _ _ _ _ _ _ Hc)
      end.
  - match goal with
    | S : session_run _ _ _ _ _ _ |- _ =>
        destruct (proj2 (session_leaves_connection _ _ _ _ _ _ S) _ _ _ _ _ _ Hin)
    end.
Qed.

(** X8: when the database refuses the connection, that error is the
    outcome of the run; the trace is the header read and the refused
    connection: no statement was sent and nothing is closed. *)
Theorem connection_failure_propagates (w : env) (a : args)
        (h : str) (p : Z) (d u pw : str) (e : exn) :
  In (EvConnect h p d u pw (Some e)) (trace w a) ->
  outcome w a = Raise e
  /\ exists rd,
       trace w a
       = [EvOpen (csv a) (Some []) (Ok rd);
          EvConnect (host a) (port a) (dbname a) (user a) (password a) (Some e)].
Proof.
  intros Hin.
  destruct (main_run_connect _ _ _ _ _ _ _ _ _ (main_runs w a) Hin)
    as (_ & Hout & rd & hd & rest & after & _ & Htr & Hafter & _).
  split; [now apply Hout|].
  exists rd. rewrite Htr, Hafter; [reflexivity | discriminate].
Qed.

Lemma connection_failure_propagates_witness :
  outcome unreachable_db_world permits_args = Raise (OtherError (lit "OperationalError"))
  /\ exists rd,
       trace unreachable_db_world permits_args
       = [EvOpen (csv permits_args) (Some []) (Ok rd);
          EvConnect (host permits_args) (port permits_args) (dbname permits_args)
            (user permits_args) (password permits_args)
            (Some (OtherError (lit "OperationalError")))].
Proof.
  apply (connection_failure_propagates unreachable_db_world permits_args
           (lit "localhost") 5432%Z (lit "mydb") (lit "myuser") (lit "secret")).
  right. left. reflexivity.
Defined.

(** X15: a run connects at most once, with the host, port, database,
    user and password of the command line, and only as its second
    action, after the read that gave it a header. *)
Theorem connects_once_after_header (w : env) (a : args)
        (h : str) (p : Z) (d u pw : str) (err : option exn) :
  In (EvConnect h p d u pw err) (trace w a) ->
  (h, p, d, u, pw) = (host a, port a, dbname a, user a, password a)
  /\ exists rd hd rest after,
       records rd = hd :: rest
       /\ trace w a
          = EvOpen (csv a) (Some []) (Ok rd)
              :: EvConnect (host a) (port a) (dbname a) (user a) (password a) err
              :: after
       /\ forall h' p' d' u' pw' err', ~ In (EvConnect h' p' d' u' pw' err') after.
Proof.
  intros Hin.
  destruct (main_run_connect _ _ _ _ _ _ _ _ _ (main_runs w a) Hin)
    as (Hargs & _ & rd & hd & rest & after & Hr & Htr & _ & Hone).
  split; [exact Hargs|]. exists rd, hd, rest, after. auto.
Qed.

Lemma connects_once_after_header_witness :
  (lit "localhost", 5432%Z, lit "mydb", lit "myuser", lit "secret")
  = (host permits_args, port permits_args, dbname permits_args,
     user permits_args, password permits_args)
  /\ exists rd hd rest after,
       records rd = hd :: rest
       /\ trace permits_world permits_args
          = EvOpen (csv permits_args) (Some []) (Ok rd)
              :: EvConnect (host permits_args) (port permits_args) (dbname permits_args)
                   (user permits_args) (password permits_args) None
              :: after
       /\ forall h' p' d' u' pw' err', ~ In (EvConnect h' p' d' u' pw' err') after.
Proof.
  apply (connects_once_after_header permits_world permits_args).
  right. left. reflexivity.
Defined.

Lemma main_run_statement_error (a : args) (r : result unit) (tr : list event)
      (q : composable) (v : option (list str)) (e : exn) :
  main_run a r tr ->
  In (EvExecute q v (Some e)) tr ->
  r = Raise e /\ exists before, tr = before ++ [EvExecute q v (Some e); EvClose].
Proof.
  intros R Hin. destruct R; in_cases; try discriminate.
  match goal with
  | S : session_run _ _ _ _ _ _ |- _ =>
      destruct (session_statement_error _ _ _ _ _ _ _ _ _ S Hin) as (-> & before & ->)
  end.
  split; [reflexivity|].
  exists ([EvOpen (csv a) (Some []) (Ok rd);
           EvConnect (host a) (port a) (dbname a) (user a) (password a) None]
            ++ before).
  rewrite <- !app_assoc. reflexivity.
Qed.

Lemma main_run_commit_error (a : args) (r : result unit) (tr : list event) (e : exn) :
  main_run a r tr ->
  In (EvCommit (Some e)) tr ->
  r = Raise e /\ exists before, tr = before ++ [EvCommit (Some e); EvClose].
Proof.
  intros R Hin.
  destruct (main_run_commit _ _ _ _ R Hin)
    as (s & t & rd & h & rest & cs & ins & rd2 & h2 & rows
        & _ & _ & _ & _ & _ & _ & -> & ->).
  split; [reflexivity|].
  exists ([EvOpen (csv a) (Some []) (Ok rd);
           EvConnect (host a) (port a) (dbname a) (user a) (password a) None;
           EvExecute cs None None; EvOpen (csv a) None (Ok rd2)]
            ++ map (inserted ins) rows).
  rewrite <- !app_assoc. reflexivity.
Qed.

(** X9: an error of the database on a statement or on the commit is the
    outcome of the run, unchanged; the failed request is the last one
    sent, and the close of the connection is all that follows it. *)
Theorem database_error_ends_run (w : env) (a : args) (e : exn) :
  (forall q v, In (EvExecute q v (Some e)) (trace w a) ->
     outcome w a = Raise e
     /\ exists before, trace w a = before ++ [EvExecute q v (Some e); EvClose])
  /\ (In (EvCommit (Some e)) (trace w a) ->
      outcome w a = Raise e
      /\ exists before, trace w a = before ++ [EvCommit (Some e); EvClose]).
Proof.
  split.
  - intros q v Hin. eapply main_run_statement_error; [apply main_runs | exact Hin].
  - intros Hin. eapply main_run_commit_error; [apply main_runs | exact Hin].
Qed.

Lemma database_error_ends_run_witness :
  outcome rejecting_db_world permits_args = Raise (OtherError (lit "DataError"))
  /\ exists before,
       trace rejecting_db_world permits_args
       = before ++ [EvExecute
                      (Composed
                         [SQL (lit "INSERT INTO "); Identifier (lit "public"); SQL (lit ".");
                          Identifier (lit "permits"); SQL (lit " (");
                          join (SQL (lit ", "))
                            (map Identifier [lit "Permit__"; lit "c_2nd_Street"; lit "notes"]);
                          SQL (lit ") VALUES (");
                          join (SQL (lit ", ")) (repeat Placeholder 3);
                          SQL (lit ")")])
                      (Some [lit "18"; lit "Oak"; lit "late"])
                      (Some (OtherError (lit "DataError")));
                    EvClose].
Proof.
  apply (proj1 (database_error_ends_run rejecting_db_world permits_args
                  (OtherError (lit "DataError")))).
  do 5 right. left. reflexivity.
Defined.

(* ================================================================= *)
(** ** Rows reach the database in file order *)

Lemma submitted_rows_app (t1 t2 : list event) :
  submitted_rows (t1 ++ t2) = submitted_rows t1 ++ submitted_rows t2.
Proof.
  induction t1 as [|ev t1 IH]; [reflexivity|].
  destruct ev as [| |q [row|] err| | | |]; simpl; rewrite IH; reflexivity.
Qed.

Lemma submitted_rows_inserted (ins : composable) (rows : list (list str)) :
  submitted_rows (map (inserted ins) rows) = rows.
Proof. induction rows as [|row rows IH]; simpl; [reflexivity | now rewrite IH]. Qed.

Lemma session_rows (cs ins : composable) (path : str) (msg : nat -> str)
      (r : result unit) (body : list event) :
  session_run cs ins path msg r body ->
  (forall p rd2, In (EvOpen p None (Ok rd2)) body ->
     exists k, submitted_rows body = firstn k (tl (records rd2)))
  /\ ((forall rd2, ~ In (EvOpen path None (Ok rd2)) body) -> submitted_rows body = [])
  /\ (r = Ok tt ->
      exists rd2, In (EvOpen path None (Ok rd2)) body
                  /\ submitted_rows body = tl (records rd2)).
Proof.
  intros R. destruct R.
  - split; [intros p rd2 Hin; in_cases; discriminate|].
    split; [reflexivity | discriminate].
  - split; [intros p rd2 Hin; in_cases; discriminate|].
    split; [reflexivity | discriminate].
  - split; [exists 0%nat; reflexivity|].
    split; [reflexivity | discriminate].
  - split; [|split; [|discriminate]].
    + intros p rd2 Hin. exists (List.length done + 1)%nat.
      in_cases; try discriminate. injection Hin as _ <-.
      rewrite H. cbn [tl]. rewrite firstn_app_2. cbn [firstn].
      cbn [app submitted_rows]. now rewrite submitted_rows_app, submitted_rows_inserted.
    + intros Hno. exfalso. apply (Hno rd). right. left. reflexivity.
  - split; [|split; [|discriminate]].
    + intros p rd2 Hin. exists (List.length rows).
      in_cases; try discriminate. injection Hin as _ <-.
      rewrite H. cbn [tl app submitted_rows].
      now rewrite submitted_rows_inserted, firstn_all.
    + intros Hno. exfalso. apply (Hno rd). right. left. reflexivity.
  - split; [|split; [|discriminate]].
    + intros p rd2 Hin. exists (List.length rows).
      in_cases; try discriminate. injection Hin as _ <-.
      rewrite H. cbn [tl app submitted_rows].
      rewrite submitted_rows_app, submitted_rows_inserted, firstn_all.
      cbn [submitted_rows]. now rewrite app_nil_r.
    + intros Hno. exfalso. apply (Hno rd). right. left. reflexivity.
  - split; [|split].
    + intros p rd2 Hin. exists (List.length rows).
      in_cases; try discriminate. injection Hin as _ <-.
      rewrite H. cbn [tl app submitted_rows].
      rewrite submitted_rows_app, submitted_rows_inserted, firstn_all.
      cbn [submitted_rows]. now rewrite app_nil_r.
    + intros Hno. exfalso. apply (Hno rd). right. left. reflexivity.
    + intros _. exists rd. split; [right; left; reflexivity|].
      rewrite H. cbn [tl app submitted_rows].
      rewrite submitted_rows_app, submitted_rows_inserted.
      cbn [submitted_rows]. now rewrite app_nil_r.
Qed.

Lemma main_run_rows (a : args) (r : result unit) (tr : list event) :
  main_run a r tr ->
  (forall rd2, In (EvOpen (csv a) None (Ok rd2)) tr ->
     exists k, submitted_rows tr = firstn k (tl (records rd2)))
  /\ ((forall rd2, ~ In (EvOpen (csv a) None (Ok rd2)) tr) -> submitted_rows tr = [])
  /\ (r = Ok tt ->
      exists rd2, In (EvOpen (csv a) None (Ok rd2)) tr
                  /\ submitted_rows tr = tl (records rd2)).
Proof.
  intros R. destruct R;
    try (split; [intros rd2 Hin; in_cases; discriminate|];
         split; [reflexivity | discriminate]).
  match goal with
  | S : session_run _ _ _ _ _ _ |- _ =>
      destruct (session_rows _ _ _ _ _ _ S) as (Hpre & Hnone & Hall)
  end.
  assert (Hsub : submitted_rows
                   ([EvOpen (csv a) (Some []) (Ok rd);
                     EvConnect (host a) (port a) (dbname a) (user a) (password a) None]
                      ++ body ++ [EvClose])
                 = submitted_rows body).
  { cbn [app submitted_rows]. rewrite submitted_rows_app. cbn [submitted_rows].
    apply app_nil_r. }
  rewrite Hsub. split; [|split].
  - intros rd2 Hin. in_cases; try discriminate. eapply Hpre; eassumption.
  - intros Hno. apply Hnone. intros rd2 Hin.
    apply (Hno rd2). apply in_or_app. right. apply in_or_app. left. exact Hin.
  - intros Hr. destruct (Hall Hr) as (rd2 & Hin & Heq).
    exists rd2. split; [|exact Heq].
    apply in_or_app. right. apply in_or_app. left. exact Hin.
Qed.

(** X10: the rows sent to the database are the data rows of the second
    read, unchanged and in file order, up to the point the run stopped:
    a prefix of them in every run, none when the file was not read
    again, and all of them in a run that returns. *)
Theorem rows_submitted_in_file_order (w : env) (a : args) :
  (forall rd2, In (EvOpen (csv a) None (Ok rd2)) (trace w a) ->
     exists k, submitted_rows (trace w a) = firstn k (tl (records rd2)))
  /\ ((forall rd2, ~ In (EvOpen (csv a) None (Ok rd2)) (trace w a)) ->
      submitted_rows (trace w a) = [])
  /\ (outcome w a = Ok tt ->
      exists rd2, In (EvOpen (csv a) None (Ok rd2)) (trace w a)
                  /\ submitted_rows (trace w a) = tl (records rd2)).
Proof. apply main_run_rows, main_runs. Qed.

Lemma rows_submitted_in_file_order_witness :
  exists rd2,
    In (EvOpen (csv permits_args) None (Ok rd2)) (trace permits_world permits_args)
    /\ submitted_rows (trace permits_world permits_args) = tl (records rd2).
Proof.
  apply (rows_submitted_in_file_order permits_world permits_args).
  reflexivity.
Defined.

(* ================================================================= *)
(** ** What the run reports *)








(* ================================================================= *)
(** ** The second read of the CSV file *)

Lemma main_run_reopen_error (a : args) (r : result unit) (tr : list event) (e : exn) :
  main_run a r tr ->
  In (EvOpen (csv a) None (Raise e)) tr ->
  r = Raise e
  /\ exists rd cs,
       tr = [EvOpen (csv a) (Some []) (Ok rd);
             EvConnect (host a) (port a) (dbname a) (user a) (password a) None;
             EvExecute cs None None;
             EvOpen (csv a) None (Raise e);
             EvClose].
Proof.
  intros R Hin. destruct R; in_cases; try discriminate.
  match goal with
  | S : session_run _ _ _ _ _ _ |- _ =>
      destruct (session_reopen_error _ _ _ _ _ _ _ _ S Hin) as (-> & ->)
  end.
  split; [reflexivity|]. exists rd, cs. reflexivity.
Qed.

Lemma main_run_reread_empty (a : args) (r : result unit) (tr : list event) (rd2 : reader) :
  main_run a r tr ->
  In (EvOpen (csv a) None (Ok rd2)) tr ->
  records rd2 = [] ->
  r = Raise (ended (ending rd2))
  /\ exists rd cs,
       tr = [EvOpen (csv a) (Some []) (Ok rd);
             EvConnect (host a) (port a) (dbname a) (user a) (password a) None;
             EvExecute cs None None;
             EvOpen (csv a) None (Ok rd2);
             EvClose].
Proof.
  intros R Hin Hr. destruct R; in_cases; try discriminate.
  match goal with
  | S : session_run _ _ _ _ _ _ |- _ =>
      destruct (session_reread_empty _ _ _ _ _ _ _ _ S Hin Hr) as (-> & ->)
  end.
  split; [reflexivity|]. exists rd, cs. reflexivity.
Qed.

(** X13: a failure of the second open of the CSV file is not handled,
    a [FileNotFoundError] included: the exception is the outcome of the
    run, no message is printed, the table has already been created, no
    row is inserted, nothing is committed and the connection is
    closed. *)
Theorem reopen_failure_not_caught (w : env) (a : args) (e : exn) :
  In (EvOpen (csv a) None (Raise e)) (trace w a) ->
  outcome w a = Raise e
  /\ exists rd cs,
       trace w a
       = [EvOpen (csv a) (Some []) (Ok rd);
          EvConnect (host a) (port a) (dbname a) (user a) (password a) None;
          EvExecute cs None None;
          EvOpen (csv a) None (Raise e);
          EvClose].
Proof. intros Hin. eapply main_run_reopen_error; [apply main_runs | exact Hin]. Qed.

Lemma reopen_failure_not_caught_witness :
  outcome vanishing_file_world permits_args = Raise FileNotFoundError
  /\ exists rd cs,
       trace vanishing_file_world permits_args
       = [EvOpen (csv permits_args) (Some []) (Ok rd);
          EvConnect (host permits_args) (port permits_args) (dbname permits_args)
            (user permits_args) (password permits_args) None;
          EvExecute cs None None;
          EvOpen (csv permits_args) None (Raise FileNotFoundError);
          EvClose].
Proof.
  apply (reopen_failure_not_caught vanishing_file_world permits_args FileNotFoundError).
  do 3 right. left. reflexivity.
Defined.

(** X14: when the second read finds no record to skip as header, the
    exception of [next] ([StopIteration] for a file that simply ended)
    leaves [main] unhandled: the table has been created, no row is
    inserted, nothing is committed and the connection is closed. *)
Theorem reread_without_header_raises (w : env) (a : args) (rd2 : reader) :
  In (EvOpen (csv a) None (Ok rd2)) (trace w a) ->
  records rd2 = [] ->
  outcome w a = Raise (match ending rd2 with None => StopIteration | Some e => e end)
  /\ exists rd cs,
       trace w a
       = [EvOpen (csv a) (Some []) (Ok rd);
          EvConnect (host a) (port a) (dbname a) (user a) (password a) None;
          EvExecute cs None None;
          EvOpen (csv a) None (Ok rd2);
          EvClose].
Proof.
  intros Hin Hr. eapply main_run_reread_empty; [apply main_runs | exact Hin | exact Hr].
Qed.

Lemma reread_without_header_raises_witness :
  outcome truncated_file_world permits_args = Raise StopIteration
  /\ exists rd cs,
       trace truncated_file_world permits_args
       = [EvOpen (csv permits_args) (Some []) (Ok rd);
          EvConnect (host permits_args) (port permits_args) (dbname permits_args)
            (user permits_args) (password permits_args) None;
          EvExecute cs None None;
          EvOpen (csv permits_args) None (Ok {| records := []; ending := None |});
          EvClose].
Proof.
  apply (reread_without_header_raises truncated_file_world permits_args
           {| records := []; ending := None |}).
  - do 3 right. left. reflexivity.
  - reflexivity.
Defined.

(* ================================================================= *)
(** ** Other failures of the first open *)

Lemma main_run_open_error (a : args) (r : result unit) (tr : list event) (e : exn) :
  main_run a r tr ->
  In (EvOpen (csv a) (Some []) (Raise e)) tr ->
  e <> FileNotFoundError ->
  r = Raise e /\ tr = [EvOpen (csv a) (Some []) (Raise e)].
Proof.
  intros R Hin Hne. destruct R; in_cases; try discriminate.
  - injection Hin as <-. now contradiction Hne.
  - injection Hin as <-. split; reflexivity.
  - exfalso. eapply session_reads_rows_only; eassumption.
Qed.

(** X16: only [FileNotFoundError] is handled at the first open.  Any
    other exception of that open (a permission error, a directory in
    place of the file) is the outcome of the run as it is: no message is
    printed and the open is the only thing the run did. *)
Theorem other_open_errors_propagate (w : env) (a : args) (e : exn) :
  In (EvOpen (csv a) (Some []) (Raise e)) (trace w a) ->
  e <> FileNotFoundError ->
  outcome w a = Raise e /\ trace w a = [EvOpen (csv a) (Some []) (Raise e)].
Proof.
  intros Hin Hne. eapply main_run_open_error; [apply main_runs | exact Hin | exact Hne].
Qed.

Lemma other_open_errors_propagate_witness :
  outcome unreadable_file_world permits_args = Raise (OtherError (lit "PermissionError"))
  /\ trace unreadable_file_world permits_args
     = [EvOpen (csv permits_args) (Some []) (Raise (OtherError (lit "PermissionError")))].
Proof.
  apply (other_open_errors_propagate unreadable_file_world permits_args
           (OtherError (lit "PermissionError"))).
  - left. reflexivity.
  - discriminate.
Defined.
